(** * Banklytics: the indicator engine of [src/preprocess.py]

    A shallow embedding of [preprocess_sbp_data]: the pivot of the long
    SBP balance-sheet records into a wide table keyed by
    (Subgrupo, Año, Mes), the DuPont ratios (ROA, Leverage, ROE), the
    quantile classification of ROE and the secondary ratios.

    Numbers.  The source computes on pandas float64 columns.  Here a
    number is an exact rational ([Qc], canonical rationals with Leibniz
    equality) and the one special value the engine relies on, NaN
    (pandas' null), is [None] of [option Qc].  Rounding, overflow and
    infinities of binary64 are outside this model.  A column that the
    source has passed through [fillna(0)], or that is a sum of such
    columns, can hold no NaN and is typed [Qc]; a column that may hold
    NaN is typed [option Qc].

    Tables.  A pandas Series over [pivoted.index] is a finite map from
    period keys; the pivoted frame is a two-level finite map, a cell
    that pandas shows as NaN being an absent inner key. *)

From Stdlib Require Import QArith Qcanon Qround Lqa.
From stdpp Require Import gmap strings list fin_maps numbers sorting.

(** ** Raw records and the pivot *)

(** One row of the Excel sheet after [pd.to_numeric(df['Valor'],
    errors='coerce')]: [Valor] is a number or NaN.  The five key fields
    are present: [pivot_table] groups with [dropna=True], which leaves
    out a record that lacks one of them. *)
Record raw_record := RawRecord {
  Subgrupo : string;
  Año : Z;
  Mes : Z;
  Categoría : string;
  Indicador : string;
  Valor : option Qc
}.

Abbreviation period_key := (string * Z * Z)%type.
Abbreviation column := (string * string)%type.

Abbreviation wide_row := (gmap column Qc).
Abbreviation wide_table := (gmap period_key (gmap column Qc)).
Abbreviation series V := (gmap period_key V).

Definition key_of (r : raw_record) : period_key := (Subgrupo r, Año r, Mes r).
Definition col_of (r : raw_record) : column := (Categoría r, Indicador r).

(** [aggfunc="sum"] skips NaN: a NaN value adds nothing to its group,
    and a group of NaN values only sums to 0. *)
Definition nan_to_zero (v : option Qc) : Qc := default 0%Qc v.

(** Entering one record into the table: its value is added to the cell
    (index key, column key), which is created at 0 when new. *)
Definition add_record (r : raw_record) (t : wide_table) : wide_table :=
  let cells := default ∅ (t !! key_of r) in
  let old := default 0%Qc (cells !! col_of r) in
  <[key_of r := <[col_of r := (old + nan_to_zero (Valor r))%Qc]> cells]> t.

(** [df.pivot_table(index=[Subgrupo, Año, Mes],
    columns=[Categoría, Indicador], values="Valor", aggfunc="sum")]. *)
Definition pivot_table (df : list raw_record) : wide_table :=
  foldr add_record ∅ df.

(** [pivoted.index] and [pivoted.columns].  pandas lists the index in
    sorted key order; here it is listed in the order in which the map
    enumerates its keys.  The order of the rows has no part in what the
    engine computes (see [thresholds_Permutation]). *)
Definition index (pivoted : wide_table) : list period_key :=
  (map_to_list pivoted).*1.

Definition columns (pivoted : wide_table) : gset column :=
  ⋃ (dom <$> (map_to_list pivoted).*2).

(** [pivoted.columns.get_level_values(0)]. *)
Definition level0 (pivoted : wide_table) : gset string :=
  set_map fst (columns pivoted).

(** ** Nullable arithmetic (NaN propagation) *)

Definition nan_mul (a b : option Qc) : option Qc :=
  x ← a; y ← b; Some (x * y)%Qc.

(** Division of nullable numbers.  For a zero divisor binary64 gives an
    infinity or NaN; the engine never keeps such a quotient (the divisor
    was replaced by NaN beforehand, or [np.where] discards the entry),
    so the model leaves it undefined. *)
Definition nan_div (a b : option Qc) : option Qc :=
  x ← a; y ← b; if decide (y = 0%Qc) then None else Some (x / y)%Qc.

(** [Series.replace({0: np.nan})] on one entry. *)
Definition replace_zero_nan (x : Qc) : option Qc :=
  if decide (x = 0%Qc) then None else Some x.

(** ** Quantiles *)

(** [Series.quantile(q)] with pandas' default linear interpolation:
    on the sorted values, at the rank [q * (n - 1)], between the
    neighbour below, [sorted[floor rank]], and the next one (the last
    value when there is no next). *)
Definition quantile (values : list Qc) (q : Qc) : Qc :=
  let sorted := merge_sort Qcle values in
  let pos := (q * Qc_of_Z (Z.of_nat (length values) - 1))%Qc in
  let lo := Qfloor pos in
  let hi := Z.min (lo + 1) (Z.of_nat (length values) - 1) in
  let a := nth (Z.to_nat lo) sorted 0%Qc in
  let b := nth (Z.to_nat hi) sorted 0%Qc in
  (a + (b - a) * (pos - Qc_of_Z lo))%Qc.

Definition q033 : Qc := Q2Qc (33 # 100).
Definition q066 : Qc := Q2Qc (66 # 100).

(** [series.dropna()] as the list of its values. *)
Definition dropna (s : series (option Qc)) : list Qc :=
  omap id (map_to_list s).*2.

(** Lines 50-53: the thresholds [(q33, q66)]. *)
Definition thresholds (temp_roe : list Qc) : Qc * Qc :=
  if decide (2 < length temp_roe)
  then (quantile temp_roe q033, quantile temp_roe q066)
  else (0%Qc, 0%Qc).

(** Lines 55-63. *)
Definition classify_roe (q33 q66 : Qc) (x : option Qc) : string :=
  match x with
  | None => "Unknown"
  | Some x =>
      if decide (x ≤ q33)%Qc then "Low performance"
      else if decide (x ≤ q66)%Qc then "Medium performance"
      else "High performance"
  end.

(** ** The columns computed from the pivoted frame *)

Global Instance Qc_inhabited : Inhabited Qc := populate 0%Qc.

Section Engine.
Variable pivoted : wide_table.

(** Lines 28-32. *)
Definition get_col (category indicator : string) : series Qc :=
  if decide ((category, indicator) ∈ columns pivoted)
  then (λ cells : wide_row, default 0%Qc (cells !! (category, indicator)))
         <$> pivoted
  else (λ _ : wide_row, 0%Qc) <$> pivoted.

Definition series_add (a b : series Qc) : series Qc :=
  map_zip_with Qcplus a b.
Definition series_sub (a b : series Qc) : series Qc :=
  map_zip_with Qcminus a b.
Definition series_mul (a b : series (option Qc)) : series (option Qc) :=
  map_zip_with nan_mul a b.
Definition series_div (a b : series (option Qc)) : series (option Qc) :=
  map_zip_with nan_div a b.
Definition notnull (a : series Qc) : series (option Qc) := Some <$> a.

(** [np.where(den != 0, value, np.nan)]. *)
Definition where_ne0 (den : series Qc) (value : series (option Qc))
  : series (option Qc) :=
  map_zip_with (λ d v, if decide (d ≠ 0%Qc) then v else None) den value.

(** [pivoted[category].sum(axis=1)] when the category is a level-0
    column value, a series of 0 otherwise (lines 69-77). *)
Definition sum_category (category : string) : series Qc :=
  if decide (category ∈ level0 pivoted)
  then (λ cells : wide_row,
          map_fold (λ (c : column) (v acc : Qc),
                      if decide (c.1 = category) then (acc + v)%Qc else acc)
                   0%Qc cells) <$> pivoted
  else (λ _ : wide_row, 0%Qc) <$> pivoted.

Definition net_income := get_col "Patrimonio" "Utilidad De Periodo".
Definition total_assets := get_col "Patrimonio" "Pasivo Y Patrimonio".
Definition capital := get_col "Patrimonio" "Capital".
Definition other_reserves := get_col "Patrimonio" "Otras Reservas".
Definition previous_net_income :=
  get_col "Patrimonio" "Utilidad De Periodos Anteriores".
Definition market_value_gain :=
  get_col "Patrimonio"
          "Ganancia O Perdida En Valores Disponible Para La Venta".

Definition equity : series Qc :=
  series_add (series_add (series_add (series_add capital other_reserves)
                                     previous_net_income)
                         market_value_gain)
             net_income.

Definition roa : series (option Qc) :=
  series_div (notnull net_income) (replace_zero_nan <$> total_assets).
Definition leverage : series (option Qc) :=
  series_div (notnull total_assets) (replace_zero_nan <$> equity).
Definition roe : series (option Qc) := series_mul roa leverage.

Definition temp_roe : list Qc := dropna roe.
Definition q33 : Qc := (thresholds temp_roe).1.
Definition q66 : Qc := (thresholds temp_roe).2.

Definition classification : series string := classify_roe q33 q66 <$> roe.

Definition total_activos_liquidos := sum_category "Activos Liquidos".
Definition total_deposits := sum_category "Depositos".
Definition liquidity_ratio : series (option Qc) :=
  where_ne0 total_deposits
    (series_div (notnull total_activos_liquidos) (notnull total_deposits)).

Definition deposit_particulares := get_col "Depositos" "De Particulares".
Definition deposit_bancos := get_col "Depositos" "De Bancos".
Definition deposit_diversity : series (option Qc) :=
  where_ne0 deposit_bancos
    (series_div (notnull deposit_particulares) (notnull deposit_bancos)).

Definition deposit_a_la_vista := get_col "Depositos" "A La Vista".
Definition deposit_a_plazo := get_col "Depositos" "A Plazo".
Definition deposit_view_to_plazo : series (option Qc) :=
  where_ne0 deposit_a_plazo
    (series_div (notnull deposit_a_la_vista) (notnull deposit_a_plazo)).

Definition credit_locales := get_col "Cartera Crediticia" "Locales".
Definition credit_extr := get_col "Cartera Crediticia" "Extranjero".
Definition credit_menos := get_col "Cartera Crediticia" "Menos Provisiones".
Definition credit_total := series_add credit_locales credit_extr.
Definition coverage_ratio : series (option Qc) :=
  where_ne0 credit_total
    (series_div (notnull credit_menos) (notnull credit_total)).

Definition obligations_locales := get_col "Obligaciones" "Locales".
Definition obligations_extr := get_col "Obligaciones" "Extranjero".
Definition otros_pasivos_locales := get_col "Otros Pasivos" "Locales".
Definition otros_pasivos_extr := get_col "Otros Pasivos" "Extranjero".
Definition total_obligations : series Qc :=
  series_add (series_add (series_add obligations_locales obligations_extr)
                         otros_pasivos_locales)
             otros_pasivos_extr.
Definition leverage_ratio_extra : series (option Qc) :=
  where_ne0 equity (series_div (notnull total_obligations) (notnull equity)).

Definition capitalization_ratio : series (option Qc) :=
  where_ne0 total_assets
    (series_div (notnull equity) (notnull total_assets)).

Definition credit_locales_minus :=
  get_col "Cartera Crediticia" "Menos Provisiones Locales".
Definition denom_adjusted := series_sub credit_locales credit_locales_minus.
Definition adjusted_ROE : series (option Qc) :=
  where_ne0 denom_adjusted
    (series_mul roe
       (series_div (notnull credit_locales) (notnull denom_adjusted))).
End Engine.

(** ** The result frame *)

Module Out.
Record row := Row {
  Bank : string;
  Year : Z;
  Month : Z;
  net_income : Qc;
  total_assets : Qc;
  equity : Qc;
  ROA : option Qc;
  Leverage : option Qc;
  ROE : option Qc;
  classification : string;
  liquidity_ratio : option Qc;
  deposit_diversity : option Qc;
  deposit_view_to_plazo : option Qc;
  coverage_ratio : option Qc;
  leverage_ratio_extra : option Qc;
  capitalization_ratio : option Qc;
  adjusted_ROE : option Qc
}.

Definition key (r : row) : period_key := (Bank r, Year r, Month r).
End Out.

(** Lines 122-140: the row of the result frame at one index entry.  A
    nullable column read at a key it lacks is NaN, as pandas aligns. *)
Definition result_row (pivoted : wide_table) (k : period_key) : Out.row :=
  {| Out.Bank := k.1.1;
     Out.Year := k.1.2;
     Out.Month := k.2;
     Out.net_income := net_income pivoted !!! k;
     Out.total_assets := total_assets pivoted !!! k;
     Out.equity := equity pivoted !!! k;
     Out.ROA := mjoin (roa pivoted !! k);
     Out.Leverage := mjoin (leverage pivoted !! k);
     Out.ROE := mjoin (roe pivoted !! k);
     Out.classification := classification pivoted !!! k;
     Out.liquidity_ratio := mjoin (liquidity_ratio pivoted !! k);
     Out.deposit_diversity := mjoin (deposit_diversity pivoted !! k);
     Out.deposit_view_to_plazo := mjoin (deposit_view_to_plazo pivoted !! k);
     Out.coverage_ratio := mjoin (coverage_ratio pivoted !! k);
     Out.leverage_ratio_extra := mjoin (leverage_ratio_extra pivoted !! k);
     Out.capitalization_ratio := mjoin (capitalization_ratio pivoted !! k);
     Out.adjusted_ROE := mjoin (adjusted_ROE pivoted !! k) |}.

(** [preprocess_sbp_data], from the records of the sheet to the rows of
    the returned frame (in the order of [pivoted.index]). *)
Definition preprocess_sbp_data (df : list raw_record) : list Out.row :=
  let pivoted := pivot_table df in
  result_row pivoted <$> index pivoted.

(** ** Auxiliary definitions for the statements *)

(** Linear interpolation in a sorted sample at the rank [pos]. *)
Definition interp (s : list Qc) (pos : Qc) : Qc :=
  let lo := Qfloor pos in
  let hi := Z.min (lo + 1) (Z.of_nat (length s) - 1) in
  (nth (Z.to_nat lo) s 0 + (nth (Z.to_nat hi) s 0 - nth (Z.to_nat lo) s 0)
                           * (pos - Qc_of_Z lo))%Qc.

(** The records of one group, and the sum [aggfunc="sum"] gives it. *)
Definition group (df : list raw_record) (k : period_key) (c : column)
  : list raw_record :=
  filter (λ r, key_of r = k ∧ col_of r = c) df.

Definition sum_values (l : list raw_record) : Qc :=
  foldr (λ r acc, (acc + nan_to_zero (Valor r))%Qc) 0%Qc l.

(** A cell of the pivoted frame; [None] is pandas' NaN. *)
Definition cell_at (t : wide_table) (k : period_key) (c : column)
  : option Qc :=
  t !! k ≫= (.!! c).

Definition group_sum (df : list raw_record) (k : period_key) (c : column)
  : option Qc :=
  match group df k c with
  | [] => None
  | l => Some (sum_values l)
  end.

(** ** Row-wise reading of the columns

    Every column of the engine is computed entry by entry from the cells
    of one index key.  [Rowwise] names these entry computations; the
    lemmas after it show that the columns are their images. *)

Module Rowwise.
Section Cells.
Variable cells : wide_row.

Definition item (category indicator : string) : Qc :=
  default 0%Qc (cells !! (category, indicator)).

Definition sum_of (category : string) : Qc :=
  map_fold (λ (c : column) (v acc : Qc),
              if decide (c.1 = category) then (acc + v)%Qc else acc)
           0%Qc cells.

Definition ratio (num den : Qc) : option Qc :=
  if decide (den ≠ 0%Qc) then nan_div (Some num) (Some den) else None.

Definition net_income := item "Patrimonio" "Utilidad De Periodo".
Definition total_assets := item "Patrimonio" "Pasivo Y Patrimonio".
Definition capital := item "Patrimonio" "Capital".
Definition other_reserves := item "Patrimonio" "Otras Reservas".
Definition previous_net_income :=
  item "Patrimonio" "Utilidad De Periodos Anteriores".
Definition market_value_gain :=
  item "Patrimonio" "Ganancia O Perdida En Valores Disponible Para La Venta".
Definition equity : Qc :=
  (capital + other_reserves + previous_net_income + market_value_gain
   + net_income)%Qc.
Definition roa : option Qc :=
  nan_div (Some net_income) (replace_zero_nan total_assets).
Definition leverage : option Qc :=
  nan_div (Some total_assets) (replace_zero_nan equity).
Definition roe : option Qc := nan_mul roa leverage.
Definition credit_locales := item "Cartera Crediticia" "Locales".
Definition credit_total : Qc :=
  (credit_locales + item "Cartera Crediticia" "Extranjero")%Qc.
Definition total_obligations : Qc :=
  (item "Obligaciones" "Locales" + item "Obligaciones" "Extranjero"
   + item "Otros Pasivos" "Locales" + item "Otros Pasivos" "Extranjero")%Qc.
Definition denom_adjusted : Qc :=
  (credit_locales - item "Cartera Crediticia" "Menos Provisiones Locales")%Qc.
Definition adjusted_ROE : option Qc :=
  if decide (denom_adjusted ≠ 0%Qc)
  then nan_mul roe (nan_div (Some credit_locales) (Some denom_adjusted))
  else None.

Definition row (q33 q66 : Qc) (k : period_key) : Out.row :=
  {| Out.Bank := k.1.1;
     Out.Year := k.1.2;
     Out.Month := k.2;
     Out.net_income := net_income;
     Out.total_assets := total_assets;
     Out.equity := equity;
     Out.ROA := roa;
     Out.Leverage := leverage;
     Out.ROE := roe;
     Out.classification := classify_roe q33 q66 roe;
     Out.liquidity_ratio :=
       ratio (sum_of "Activos Liquidos") (sum_of "Depositos");
     Out.deposit_diversity :=
       ratio (item "Depositos" "De Particulares") (item "Depositos" "De Bancos");
     Out.deposit_view_to_plazo :=
       ratio (item "Depositos" "A La Vista") (item "Depositos" "A Plazo");
     Out.coverage_ratio :=
       ratio (item "Cartera Crediticia" "Menos Provisiones") credit_total;
     Out.leverage_ratio_extra := ratio total_obligations equity;
     Out.capitalization_ratio := ratio equity total_assets;
     Out.adjusted_ROE := adjusted_ROE |}.
End Cells.
End Rowwise.

(** ** Labels and their order *)

Definition labels : list string :=
  ["Low performance"; "Medium performance"; "High performance"; "Unknown"].

(** Low < Medium < High; "Unknown" has no rank. *)
Definition label_rank (c : string) : option nat :=
  if decide (c = "Low performance") then Some 0
  else if decide (c = "Medium performance") then Some 1
  else if decide (c = "High performance") then Some 2
  else None.

Definition label_le (a b : string) : Prop :=
  ∃ i j, label_rank a = Some i ∧ label_rank b = Some j ∧ i ≤ j.

(** The non-null ROE values of a result frame. *)
Definition roe_values (out : list Out.row) : list Qc := omap Out.ROE out.

(** ** Two small sheets *)

Definition line (bank category indicator : string) (v : Z) : raw_record :=
  RawRecord bank 2023 1 category indicator (Some (Qc_of_Z v)).

(** Three banks, two of them with a defined ROE (0.05 and -0.08); bank
    "Z" has no equity lines, so its equity is 0. *)
Definition sheet2 : list raw_record :=
  [ line "X" "Patrimonio" "Utilidad De Periodo" 5;
    line "X" "Patrimonio" "Pasivo Y Patrimonio" 100;
    line "X" "Patrimonio" "Capital" 95;
    line "Y" "Patrimonio" "Utilidad De Periodo" (-4);
    line "Y" "Patrimonio" "Pasivo Y Patrimonio" 100;
    line "Y" "Patrimonio" "Capital" 54;
    line "Z" "Patrimonio" "Pasivo Y Patrimonio" 100 ].

(** Four banks with ROE 0.05, -0.08, 0.2 and 0.1 and a fifth, "Z", with
    no equity; the capital of "X" comes in two lines and one unparsable
    value. *)
Definition sheet4 : list raw_record :=
  [ line "X" "Patrimonio" "Utilidad De Periodo" 5;
    line "X" "Patrimonio" "Pasivo Y Patrimonio" 100;
    line "X" "Patrimonio" "Capital" 90;
    line "X" "Patrimonio" "Capital" 5;
    RawRecord "X" 2023 1 "Patrimonio" "Capital" None;
    line "X" "Cartera Crediticia" "Locales" 40;
    line "Y" "Patrimonio" "Utilidad De Periodo" (-4);
    line "Y" "Patrimonio" "Pasivo Y Patrimonio" 100;
    line "Y" "Patrimonio" "Capital" 54;
    line "V" "Patrimonio" "Utilidad De Periodo" 20;
    line "V" "Patrimonio" "Pasivo Y Patrimonio" 300;
    line "V" "Patrimonio" "Capital" 80;
    line "W" "Patrimonio" "Utilidad De Periodo" 10;
    line "W" "Patrimonio" "Pasivo Y Patrimonio" 500;
    line "W" "Patrimonio" "Otras Reservas" 90;
    line "Z" "Patrimonio" "Pasivo Y Patrimonio" 100;
    line "Z" "Cartera Crediticia" "Locales" 40 ].

Definition row_of (df : list raw_record) (bank : string) : Out.row :=
  result_row (pivot_table df) (bank, 2023%Z, 1%Z).


(** ** Auxiliary definitions for the further properties *)


(** A quotient that is null when its denominator is 0. *)
Definition quotient (num den : Qc) : option Qc :=
  if decide (den = 0%Qc) then None else Some (num / den)%Qc.




(** ** The trainer: [train_decision_tree] of [src/train_model.py]

    Lines 17-22, the preparation of the feature matrix.  The frame read
    back from the CSV file is the list of the rows of the result frame.
    The split, the fit of the decision tree and the report (lines
    24-32) are scikit-learn's and are not modelled. *)

Module Train.
Definition features : list string :=
  ["ROA"; "Leverage"; "liquidity_ratio"; "coverage_ratio";
   "capitalization_ratio"].

(** [X = data[features]], column by column, in the order of [features]. *)
Definition X (data : list Out.row) : list (list (option Qc)) :=
  [ Out.ROA <$> data; Out.Leverage <$> data; Out.liquidity_ratio <$> data;
    Out.coverage_ratio <$> data; Out.capitalization_ratio <$> data ].

(** The median of the non-null values of a column ([Series.median],
    which skips NaN): the middle one of the sorted values, or the mean
    of the two middle ones; NaN for a column without a value. *)
Definition median (col : list (option Qc)) : option Qc :=
  let values := omap id col in
  let sorted := merge_sort Qcle values in
  let n := length values in
  if decide (n = 0) then None
  else if Nat.even n
       then Some ((nth (n / 2 - 1) sorted 0 + nth (n / 2) sorted 0) / Q2Qc 2)%Qc
       else Some (nth (n / 2) sorted 0%Qc).

(** [col.fillna(value)]: a NaN [value] fills nothing. *)
Definition fillna (col : list (option Qc)) (value : option Qc)
  : list (option Qc) :=
  (λ x, match x with Some v => Some v | None => value end) <$> col.

(** [X = X.fillna(X.median())]: each column is filled with its own
    median. *)
Definition X_filled (data : list Out.row) : list (list (option Qc)) :=
  (λ col, fillna col (median col)) <$> X data.
End Train.

(** ** The dashboard: [src/dashboard.py]

    The script is a function of the widgets' values: the language, the
    four selections and the chosen menu entry.  A chart is recorded by
    its kind and its arguments; what plotly draws, and the series of the
    time chart (lines 166-182), are not modelled. *)

Module Dashboard.
(** Lines 25-58. *)
Definition menu_options (language : string) : list string :=
  if decide (language = "English")
  then [ "3D Graph: ROA vs. Liquidity Ratio vs. Coverage Ratio";
         "3D Graph: Leverage vs. Capitalization vs. Adjusted ROE";
         "2D Graph: ROA vs. Liquidity Ratio";
         "2D Graph: ROA vs. Coverage Ratio";
         "2D Graph: Liquidity Ratio vs. Coverage Ratio";
         "Time Series: Average ROE Over Time";
         "Financial Metrics Table" ]
  else [ "Gráfico 3D: ROA vs. Ratio de Liquidez vs. Cobertura";
         "Gráfico 3D: Apalancamiento vs. Capitalización vs. ROE Ajustado";
         "Gráfico 2D: ROA vs. Ratio de Liquidez";
         "Gráfico 2D: ROA vs. Cobertura";
         "Gráfico 2D: Ratio de Liquidez vs. Cobertura";
         "Serie de Tiempo: ROE Promedio";
         "Tabla de Métricas Financieras" ].

(** [menu_options[i]]. *)
Definition option_at (options : list string) (i : nat) : string :=
  nth i options "".

(** [sorted(column.unique().tolist())]: the distinct values in the
    order of first occurrence, then sorted (strings by code units). *)
Definition string_le (x y : string) : Prop := String.leb x y.

Global Instance string_le_dec : RelDecision string_le := λ x y, _.

Definition sorted_unique_strings (l : list string) : list string :=
  merge_sort string_le (remove_dups l).
Definition sorted_unique_numbers (l : list Z) : list Z :=
  merge_sort Z.le (remove_dups l).

(** The values of the four [multiselect] widgets. *)
Record selection := Selection {
  selected_banks : list string;
  selected_years : list Z;
  selected_months : list Z;
  selected_classes : list string
}.

(** Lines 64-74: what is selected when the user touches nothing
    ([default] is the whole list of options). *)
Definition default_selection (data_df : list Out.row) : selection :=
  {| selected_banks := sorted_unique_strings (Out.Bank <$> data_df);
     selected_years := sorted_unique_numbers (Out.Year <$> data_df);
     selected_months := sorted_unique_numbers (Out.Month <$> data_df);
     selected_classes := sorted_unique_strings (Out.classification <$> data_df) |}.

(** Lines 80-85. *)
Definition filtered_df (data_df : list Out.row) (sel : selection)
  : list Out.row :=
  filter (λ o, Out.Bank o ∈ selected_banks sel ∧
               Out.Year o ∈ selected_years sel ∧
               Out.Month o ∈ selected_months sel ∧
               Out.classification o ∈ selected_classes sel) data_df.

(** What the main area shows. *)
Inductive view :=
| Write (text : string)
| Scatter3d (x y z color symbol : string) (hover_data : list string)
    (title : string)
| Scatter (x y color : string) (hover_data : list string) (title : string)
| Line (x y : string) (title : string)
| Dataframe (cols : list string).

Definition hover : list string := ["Bank"; "Year"; "Month"; "ROE"].
Definition no_data : view :=
  Write "No data available for the selected filters.".
Definition prompt : view :=
  Write "Select a visualization option from the sidebar.".

(** Lines 90-197; [empty] is [filtered_df.empty]. *)
Definition show (menu_options : list string) (visualization_option : string)
    (empty : bool) : view :=
  if decide (visualization_option ∈
               [option_at menu_options 0; option_at menu_options 1])
  then
    if empty then no_data
    else if decide (visualization_option ∈
                      [option_at menu_options 0;
                       "Gráfico 3D: ROA vs. Ratio de Liquidez vs. Cobertura"])
    then Scatter3d "ROA" "liquidity_ratio" "coverage_ratio" "Bank"
           "classification" hover visualization_option
    else Scatter3d "Leverage" "capitalization_ratio" "adjusted_ROE" "Bank"
           "classification" hover visualization_option
  else if decide (visualization_option ∈
                    [option_at menu_options 2; option_at menu_options 3;
                     option_at menu_options 4])
  then
    if empty then no_data
    else if decide (visualization_option ∈
                      [option_at menu_options 2;
                       "Gráfico 2D: ROA vs. Ratio de Liquidez"])
    then Scatter "ROA" "liquidity_ratio" "classification" hover
           visualization_option
    else if decide (visualization_option ∈
                      [option_at menu_options 3;
                       "Gráfico 2D: ROA vs. Cobertura"])
    then Scatter "ROA" "coverage_ratio" "classification" hover
           visualization_option
    else Scatter "liquidity_ratio" "coverage_ratio" "classification" hover
           visualization_option
  else if decide (visualization_option ∈
                    [option_at menu_options 5;
                     "Serie de Tiempo: ROE Promedio";
                     "Time Series: Average ROE Over Time"])
  then
    if empty then no_data else Line "Date" "ROE" visualization_option
  else if decide (visualization_option ∈
                    [option_at menu_options 6;
                     "Tabla de Métricas Financieras";
                     "Financial Metrics Table"])
  then Dataframe ["Bank"; "Year"; "Month"; "liquidity_ratio";
                  "deposit_diversity"; "deposit_view_to_plazo";
                  "coverage_ratio"; "leverage_ratio_extra";
                  "capitalization_ratio"; "adjusted_ROE"]
  else prompt.

(** The page for given widget values. *)
Definition page (data_df : list Out.row) (language : string)
    (sel : selection) (visualization_option : string) : view :=
  show (menu_options language) visualization_option
       (bool_decide (filtered_df data_df sel = [])).

(** A view without its title. *)
Definition untitled (v : view) : view :=
  match v with
  | Scatter3d x y z c s h _ => Scatter3d x y z c s h ""
  | Scatter x y c h _ => Scatter x y c h ""
  | Line x y _ => Line x y ""
  | v => v
  end.
End Dashboard.

(** * Properties *)

(** ** Quantiles of a sample *)

Section Quantile.
Implicit Types (l s : list Qc) (p q : Qc).

Lemma this_plus (a b : Qc) : (this (a + b)%Qc == this a + this b)%Q.
Proof. simpl. apply Qred_correct. Qed.

Lemma this_minus (a b : Qc) : (this (a - b)%Qc == this a - this b)%Q.
Proof. unfold Qcminus, Qcopp. simpl. rewrite !Qred_correct. reflexivity. Qed.

Lemma this_mult (a b : Qc) : (this (a * b)%Qc == this a * this b)%Q.
Proof. simpl. apply Qred_correct. Qed.

Ltac qc_to_q :=
  unfold Qcle, Qclt in *;
  repeat (rewrite this_plus in * || rewrite this_minus in *
          || rewrite this_mult in * );
  change (this (Q2Qc 0)) with 0%Q in *;
  change (this (Q2Qc 1)) with 1%Q in *.

Lemma lerp_lower (a b f : Qc) : (a ≤ b → 0 ≤ f → a ≤ a + (b - a) * f)%Qc.
Proof. intros Hab Hf. qc_to_q. nra. Qed.

Lemma lerp_upper (a b f : Qc) : (a ≤ b → f ≤ 1 → a + (b - a) * f ≤ b)%Qc.
Proof. intros Hab Hf. qc_to_q. nra. Qed.

Lemma lerp_mono (a b f g : Qc) :
  (a ≤ b → f ≤ g → a + (b - a) * f ≤ a + (b - a) * g)%Qc.
Proof. intros Hab Hf. qc_to_q. nra. Qed.

Lemma merge_sort_Permutation_eq l l' :
  l ≡ₚ l' → merge_sort Qcle l = merge_sort Qcle l'.
Proof.
  intros Hp. apply (Sorted_unique Qcle); try apply Sorted_merge_sort; try apply _.
  by rewrite !merge_sort_Permutation.
Qed.

(** The quantile depends on the sample as a multiset only: the order
    in which the index lists the rows does not matter. *)
Lemma quantile_Permutation l l' q : l ≡ₚ l' → quantile l q = quantile l' q.
Proof.
  intros Hp. unfold quantile.
  by rewrite (merge_sort_Permutation_eq l l' Hp), (Permutation_length Hp).
Qed.

Lemma sorted_nth s (i j : nat) :
  StronglySorted Qcle s → i ≤ j → j < length s →
  (nth i s 0 ≤ nth j s 0)%Qc.
Proof.
  intros Hs. revert i j.
  induction Hs as [|x s Hs IH Hx]; intros i j Hij Hj; simpl in Hj; [lia|].
  destruct i as [|i], j as [|j]; simpl; try lia.
  - apply Qcle_refl.
  - rewrite Forall_forall in Hx. apply Hx, list_elem_of_In, nth_In. lia.
  - apply IH; lia.
Qed.

Lemma quantile_interp l q :
  quantile l q =
  interp (merge_sort Qcle l) (q * Qc_of_Z (Z.of_nat (length l) - 1))%Qc.
Proof.
  unfold quantile, interp.
  by rewrite (Permutation_length (merge_sort_Permutation Qcle l)).
Qed.

Lemma floor_range s (pos : Qc) :
  (0 ≤ pos)%Qc → (pos ≤ Qc_of_Z (Z.of_nat (length s) - 1))%Qc →
  (0 ≤ Qfloor pos ≤ Z.of_nat (length s) - 1)%Z.
Proof.
  intros H0 Hn. split.
  - apply (Qfloor_resp_le 0 pos H0).
  - rewrite <- (Qfloor_Z (Z.of_nat (length s) - 1)).
    apply Qfloor_resp_le, Hn.
Qed.

Lemma frac_range (pos : Qc) :
  (0 ≤ pos - Qc_of_Z (Qfloor pos))%Qc ∧ (pos - Qc_of_Z (Qfloor pos) ≤ 1)%Qc.
Proof.
  pose proof (Qfloor_le pos) as Hlo. pose proof (Qlt_floor pos) as Hhi.
  rewrite inject_Z_plus in Hhi.
  split; qc_to_q; simpl; change (inject_Z 1) with 1%Q in Hhi; lra.
Qed.

Lemma interp_bounds s (pos : Qc) :
  StronglySorted Qcle s →
  (0 ≤ pos)%Qc → (pos ≤ Qc_of_Z (Z.of_nat (length s) - 1))%Qc →
  (nth (Z.to_nat (Qfloor pos)) s 0 ≤ interp s pos)%Qc ∧
  (interp s pos ≤
   nth (Z.to_nat (Z.min (Qfloor pos + 1) (Z.of_nat (length s) - 1))) s 0)%Qc.
Proof.
  intros Hs H0 Hn. destruct (floor_range s pos H0 Hn) as [Hlo Hhi].
  destruct (frac_range pos) as [Hf0 Hf1].
  assert (nth (Z.to_nat (Qfloor pos)) s 0 ≤
          nth (Z.to_nat (Z.min (Qfloor pos + 1) (Z.of_nat (length s) - 1))) s 0)%Qc
    as Hab by (apply sorted_nth; [done | lia | lia]).
  unfold interp. split; [by apply lerp_lower | by apply lerp_upper].
Qed.

Lemma interp_mono s (p p' : Qc) :
  StronglySorted Qcle s →
  (0 ≤ p)%Qc → (p ≤ p')%Qc → (p' ≤ Qc_of_Z (Z.of_nat (length s) - 1))%Qc →
  (interp s p ≤ interp s p')%Qc.
Proof.
  intros Hs H0 Hpp Hn.
  assert (0 ≤ p')%Qc as H0' by (by eapply Qcle_trans).
  assert (p ≤ Qc_of_Z (Z.of_nat (length s) - 1))%Qc as Hn'
    by (by eapply Qcle_trans).
  destruct (floor_range s p H0 Hn') as [Hlo Hhi].
  destruct (floor_range s p' H0' Hn) as [Hlo' Hhi'].
  pose proof (Qfloor_resp_le p p' Hpp) as Hfl.
  destruct (decide (Qfloor p = Qfloor p')) as [Heq|Hne].
  - unfold interp. rewrite <- Heq. apply lerp_mono.
    + apply sorted_nth; [done | lia | lia].
    + qc_to_q. lra.
  - destruct (interp_bounds s p Hs H0 Hn') as [_ Hup].
    destruct (interp_bounds s p' Hs H0' Hn) as [Hdown _].
    eapply Qcle_trans; [apply Hup|]. eapply Qcle_trans; [|apply Hdown].
    apply sorted_nth; [done | lia | lia].
Qed.

Lemma quantile_mono l q q' :
  l ≠ [] → (0 ≤ q)%Qc → (q ≤ q')%Qc → (q' ≤ 1)%Qc →
  (quantile l q ≤ quantile l q')%Qc.
Proof.
  intros Hl H0 Hqq H1. rewrite !quantile_interp.
  assert (length (merge_sort Qcle l) = length l) as Hlen
    by apply Permutation_length, merge_sort_Permutation.
  assert (0 ≤ Qc_of_Z (Z.of_nat (length l) - 1))%Qc as Hn.
  { destruct l as [|x l]; [done|].
    change (inject_Z 0 <= inject_Z (Z.of_nat (length (x :: l)) - 1))%Q.
    rewrite <- Zle_Qle. simpl length. lia. }
  apply interp_mono.
  - apply StronglySorted_merge_sort; apply _.
  - qc_to_q. nra.
  - qc_to_q. nra.
  - rewrite Hlen. qc_to_q. nra.
Qed.

(** The two thresholds are ordered. *)
Lemma thresholds_ordered l : ((thresholds l).1 ≤ (thresholds l).2)%Qc.
Proof.
  unfold thresholds. case_decide as Hlen; simpl; [|apply Qcle_refl].
  apply quantile_mono; [intros ->; simpl in Hlen; lia | by compute..].
Qed.

Lemma thresholds_Permutation l l' : l ≡ₚ l' → thresholds l = thresholds l'.
Proof.
  intros Hp. unfold thresholds.
  by rewrite (Permutation_length Hp), !(quantile_Permutation l l' _ Hp).
Qed.
End Quantile.

(** ** What the pivot holds *)

Lemma cell_at_add_record r t k c :
  cell_at (add_record r t) k c =
  if decide (key_of r = k ∧ col_of r = c)
  then Some (default 0%Qc (cell_at t k c) + nan_to_zero (Valor r))%Qc
  else cell_at t k c.
Proof.
  unfold cell_at, add_record.
  destruct (decide (key_of r = k)) as [<-|Hk].
  - rewrite lookup_insert_eq. simpl.
    destruct (decide (col_of r = c)) as [<-|Hc].
    + rewrite lookup_insert_eq, decide_True by done.
      destruct (t !! key_of r); simpl; [done | by rewrite lookup_empty].
    + rewrite lookup_insert_ne by done.
      rewrite decide_False by tauto.
      destruct (t !! key_of r); simpl; [done | apply lookup_empty].
  - rewrite lookup_insert_ne by done.
    by rewrite decide_False by tauto.
Qed.

Lemma group_cons r df k c :
  group (r :: df) k c =
  if decide (key_of r = k ∧ col_of r = c) then r :: group df k c
  else group df k c.
Proof. unfold group. rewrite filter_cons. by case_decide. Qed.

Lemma default_group_sum df k c :
  default 0%Qc (group_sum df k c) = sum_values (group df k c).
Proof. unfold group_sum. by destruct (group df k c). Qed.

Lemma cell_at_pivot_table df k c :
  cell_at (pivot_table df) k c = group_sum df k c.
Proof.
  induction df as [|r df IH]; [done|].
  change (pivot_table (r :: df)) with (add_record r (pivot_table df)).
  rewrite cell_at_add_record, IH, default_group_sum.
  unfold group_sum at 2. rewrite group_cons.
  by case_decide.
Qed.

Lemma pivot_table_key df k :
  is_Some (pivot_table df !! k) ↔ k ∈ key_of <$> df.
Proof.
  induction df as [|r df IH]; simpl.
  - rewrite lookup_empty. split; [by intros [? ?] | by intros ?%elem_of_nil].
  - unfold add_record. rewrite elem_of_cons.
    destruct (decide (key_of r = k)) as [<-|Hk].
    + rewrite lookup_insert_eq. split; [by left | eauto].
    + rewrite lookup_insert_ne by done. rewrite IH.
      split; [tauto | intros [?|?]; [congruence | done]].
Qed.

Lemma elem_of_index (t : wide_table) k : k ∈ index t ↔ is_Some (t !! k).
Proof.
  unfold index. rewrite list_elem_of_fmap. split.
  - intros [[k' cells] [-> H%elem_of_map_to_list]]. eauto.
  - intros [cells H]. exists (k, cells). by rewrite elem_of_map_to_list.
Qed.


Lemma elem_of_columns (t : wide_table) c :
  c ∈ columns t ↔ ∃ k cells, t !! k = Some cells ∧ is_Some (cells !! c).
Proof.
  unfold columns. rewrite elem_of_union_list. split.
  - intros (X & HX & Hc).
    apply list_elem_of_fmap in HX as (cells & -> & Hcells).
    apply list_elem_of_fmap in Hcells as ([k cells'] & -> & Hk).
    apply elem_of_map_to_list in Hk. apply elem_of_dom in Hc. eauto.
  - intros (k & cells & Hk & Hc). exists (dom cells). split.
    + apply list_elem_of_fmap. exists cells. split; [done|].
      apply list_elem_of_fmap. exists (k, cells).
      by rewrite elem_of_map_to_list.
    + by apply elem_of_dom.
Qed.

Section ColumnsRowwise.
Variable pivoted : wide_table.

Lemma zip_with_fmap_diag {A B C D : Type} (h : B → C → D) (f : A → B)
    (g : A → C) (m : series A) :
  map_zip_with h (f <$> m) (g <$> m) = (λ x, h (f x) (g x)) <$> m.
Proof.
  apply map_eq; intros i.
  rewrite map_lookup_zip_with, !lookup_fmap. by destruct (m !! i).
Qed.

Lemma get_col_rowwise category indicator :
  get_col pivoted category indicator =
  (λ cells, Rowwise.item cells category indicator) <$> pivoted.
Proof.
  unfold get_col. case_decide as Hc; [done|].
  apply map_fmap_ext; intros k cells Hk. unfold Rowwise.item.
  destruct (cells !! (category, indicator)) eqn:E; [|done].
  exfalso. apply Hc, elem_of_columns. eauto.
Qed.

Lemma sum_of_absent (cells : wide_row) category :
  (∀ c, is_Some (cells !! c) → c.1 ≠ category) →
  Rowwise.sum_of cells category = 0%Qc.
Proof.
  unfold Rowwise.sum_of.
  induction cells as [|c v cells Hc Hfold IH] using map_first_key_ind;
    intros Habs.
  - by rewrite map_fold_empty.
  - rewrite map_fold_insert_first_key by done.
    rewrite decide_False.
    + apply IH. intros c' [v' Hc']. apply Habs.
      destruct (decide (c = c')) as [->|]; [congruence|].
      rewrite lookup_insert_ne by done. eauto.
    + apply Habs. rewrite lookup_insert_eq. eauto.
Qed.

Lemma sum_category_rowwise category :
  sum_category pivoted category =
  (λ cells, Rowwise.sum_of cells category) <$> pivoted.
Proof.
  unfold sum_category. case_decide as Hc; [done|].
  apply map_fmap_ext; intros k cells Hk. symmetry.
  apply sum_of_absent. intros c Hsome <-. apply Hc.
  unfold level0. apply elem_of_map. exists c. split; [done|].
  apply elem_of_columns. eauto.
Qed.
Ltac rowwise :=
  rewrite ?get_col_rowwise, ?sum_category_rowwise;
  unfold series_add, series_sub, series_mul, series_div, notnull, where_ne0;
  repeat (rewrite zip_with_fmap_diag || rewrite <- map_fmap_compose);
  try reflexivity.

Lemma equity_rowwise : equity pivoted = Rowwise.equity <$> pivoted.
Proof.
  unfold equity, capital, other_reserves, previous_net_income,
    market_value_gain, net_income.
  rowwise.
Qed.

Lemma roa_rowwise : roa pivoted = Rowwise.roa <$> pivoted.
Proof. unfold roa, net_income, total_assets. rowwise. Qed.

Lemma leverage_rowwise : leverage pivoted = Rowwise.leverage <$> pivoted.
Proof. unfold leverage, total_assets. rewrite equity_rowwise. rowwise. Qed.

Lemma roe_rowwise : roe pivoted = Rowwise.roe <$> pivoted.
Proof. unfold roe. rewrite roa_rowwise, leverage_rowwise. rowwise. Qed.

Lemma classification_rowwise :
  classification pivoted =
  (λ cells, classify_roe (q33 pivoted) (q66 pivoted) (Rowwise.roe cells))
    <$> pivoted.
Proof. unfold classification. rewrite roe_rowwise. rowwise. Qed.

Lemma adjusted_ROE_rowwise :
  adjusted_ROE pivoted = Rowwise.adjusted_ROE <$> pivoted.
Proof.
  unfold adjusted_ROE, denom_adjusted, credit_locales, credit_locales_minus.
  rewrite roe_rowwise. rowwise.
Qed.

Lemma result_row_rowwise k cells :
  pivoted !! k = Some cells →
  result_row pivoted k = Rowwise.row cells (q33 pivoted) (q66 pivoted) k.
Proof.
  intros Hk. unfold result_row, Rowwise.row.
  rewrite classification_rowwise, adjusted_ROE_rowwise, roe_rowwise,
    leverage_rowwise, roa_rowwise, equity_rowwise.
  unfold liquidity_ratio, deposit_diversity, deposit_view_to_plazo,
    coverage_ratio, leverage_ratio_extra, capitalization_ratio,
    total_activos_liquidos, total_deposits, deposit_particulares,
    deposit_bancos, deposit_a_la_vista, deposit_a_plazo, credit_total,
    credit_locales, credit_extr, credit_menos, total_obligations,
    obligations_locales, obligations_extr, otros_pasivos_locales,
    otros_pasivos_extr, net_income, total_assets.
  rewrite equity_rowwise. rowwise.
  rewrite !lookup_total_alt, !lookup_fmap, Hk.
  unfold Rowwise.ratio, Rowwise.credit_total, Rowwise.total_obligations,
    Rowwise.credit_locales, Rowwise.net_income, Rowwise.total_assets.
  cbn [fmap option_fmap option_map mjoin option_join default compose id].
  reflexivity.
Qed.
End ColumnsRowwise.

(** ** The rows of the result frame *)

Lemma elem_of_preprocess df o :
  o ∈ preprocess_sbp_data df ↔
  ∃ k cells, pivot_table df !! k = Some cells ∧
    o = Rowwise.row cells (q33 (pivot_table df)) (q66 (pivot_table df)) k.
Proof.
  unfold preprocess_sbp_data. rewrite list_elem_of_fmap. split.
  - intros (k & -> & Hk). apply elem_of_index in Hk as [cells Hk].
    exists k, cells. split; [done|]. by apply result_row_rowwise.
  - intros (k & cells & Hk & ->). exists k. split.
    + symmetry. by apply result_row_rowwise.
    + apply elem_of_index. eauto.
Qed.

Lemma result_row_elem_of df k :
  k ∈ key_of <$> df → result_row (pivot_table df) k ∈ preprocess_sbp_data df.
Proof.
  intros Hk. unfold preprocess_sbp_data. apply list_elem_of_fmap_2.
  by apply elem_of_index, pivot_table_key.
Qed.



Lemma omap_fmap_ext {A B C : Type} (f : B → option C) (g : A → B)
    (h : A → option C) (l : list A) :
  (∀ x, x ∈ l → f (g x) = h x) → omap f (g <$> l) = omap h l.
Proof.
  induction l as [|x l IH]; intros Hfg; csimpl; [done|].
  rewrite Hfg by left. rewrite IH; [done|]. intros y Hy. apply Hfg. by right.
Qed.

(** The sample the thresholds are computed from is the list of the
    non-null ROE values of the result frame. *)
Lemma roe_values_preprocess df :
  roe_values (preprocess_sbp_data df) = temp_roe (pivot_table df).
Proof.
  unfold roe_values, temp_roe, dropna, preprocess_sbp_data, index.
  rewrite roe_rowwise, map_to_list_fmap.
  rewrite <- !list_fmap_compose.
  rewrite (omap_fmap_ext _ _ (λ kc, Rowwise.roe kc.2)).
  - symmetry. by apply omap_fmap_ext.
  - intros [k cells] Hk%elem_of_map_to_list.
    change (Out.ROE (result_row (pivot_table df) k) = Rowwise.roe cells).
    by rewrite (result_row_rowwise _ _ _ Hk).
Qed.

Lemma thresholds_preprocess df :
  (q33 (pivot_table df), q66 (pivot_table df)) =
  thresholds (roe_values (preprocess_sbp_data df)).
Proof.
  rewrite roe_values_preprocess. unfold q33, q66.
  by destruct (thresholds _).
Qed.

(** Every row is classified from its own ROE and the thresholds of the
    frame. *)
Lemma classification_preprocess df o :
  o ∈ preprocess_sbp_data df →
  Out.classification o =
  classify_roe (thresholds (roe_values (preprocess_sbp_data df))).1
               (thresholds (roe_values (preprocess_sbp_data df))).2
               (Out.ROE o).
Proof.
  intros (k & cells & Hk & ->)%elem_of_preprocess.
  by rewrite <- thresholds_preprocess.
Qed.

(** ** Classification *)

Lemma classify_roe_labels p33 p66 x : classify_roe p33 p66 x ∈ labels.
Proof.
  unfold classify_roe, labels. destruct x as [x|]; repeat case_decide;
    set_solver.
Qed.

Lemma classify_roe_unknown p33 p66 x :
  x = None ↔ classify_roe p33 p66 x = "Unknown".
Proof.
  unfold classify_roe. destruct x as [x|]; repeat case_decide; split; done.
Qed.

Lemma classify_roe_low p33 p66 x :
  (x ≤ p33)%Qc → classify_roe p33 p66 (Some x) = "Low performance".
Proof. intros Hx. unfold classify_roe. by rewrite decide_True. Qed.

Lemma classify_roe_medium p33 p66 x :
  (p33 < x)%Qc → (x ≤ p66)%Qc →
  classify_roe p33 p66 (Some x) = "Medium performance".
Proof.
  intros H1 H2. unfold classify_roe.
  rewrite decide_False by (by apply Qclt_not_le). by rewrite decide_True.
Qed.

Lemma classify_roe_high p33 p66 x :
  (p33 ≤ p66)%Qc → (p66 < x)%Qc →
  classify_roe p33 p66 (Some x) = "High performance".
Proof.
  intros H1 H2. unfold classify_roe.
  rewrite decide_False.
  - rewrite decide_False; [done | by apply Qclt_not_le].
  - apply Qclt_not_le. by eapply Qcle_lt_trans.
Qed.

Lemma thresholds_cases (values : list Qc) :
  thresholds values =
  (if decide (length values < 3) then 0%Qc else quantile values q033,
   if decide (length values < 3) then 0%Qc else quantile values q066).
Proof. unfold thresholds. repeat case_decide; (done || lia). Qed.

Ltac qc_eval :=
  vm_compute;
  first [apply Qc_is_canon | apply (f_equal Some), Qc_is_canon];
  reflexivity.

(** C1. Every row of the result frame is labelled from its own ROE and
    the two thresholds of the frame, which are the quantiles 0.33 and
    0.66 of the non-null ROE values, or 0 and 0 when there are fewer
    than 3 of them: a null ROE gives "Unknown", ROE <= p33 gives "Low
    performance", p33 < ROE <= p66 gives "Medium performance", ROE > p66
    gives "High performance"; a value equal to a threshold falls in the
    lower class, and no other label occurs. *)
Theorem C1_classification_by_thresholds (df : list raw_record) (o : Out.row) :
  o ∈ preprocess_sbp_data df →
  let values := roe_values (preprocess_sbp_data df) in
  let p33 := if decide (length values < 3) then 0%Qc
             else quantile values q033 in
  let p66 := if decide (length values < 3) then 0%Qc
             else quantile values q066 in
  Out.classification o = classify_roe p33 p66 (Out.ROE o) ∧
  Out.classification o ∈ labels ∧
  (Out.ROE o = None ↔ Out.classification o = "Unknown") ∧
  ∀ x, Out.ROE o = Some x →
    ((x ≤ p33)%Qc → Out.classification o = "Low performance") ∧
    ((p33 < x)%Qc → (x ≤ p66)%Qc →
     Out.classification o = "Medium performance") ∧
    ((p66 < x)%Qc → Out.classification o = "High performance").
Proof.
  intros Ho values p33 p66.
  pose proof (classification_preprocess df o Ho) as Hc.
  pose proof (thresholds_ordered values) as Hord.
  fold values in Hc. rewrite thresholds_cases in Hc, Hord.
  simpl in Hc, Hord. fold p33 p66 in Hc, Hord.
  rewrite Hc. split; [done|]. split; [apply classify_roe_labels|].
  split; [apply classify_roe_unknown|].
  intros x ->. split; [apply classify_roe_low|].
  split; [apply classify_roe_medium | by apply classify_roe_high].
Qed.

Lemma C1_witness :
  row_of sheet4 "X" ∈ preprocess_sbp_data sheet4 ∧
  Out.classification (row_of sheet4 "X") = "Medium performance".
Proof.
  assert (row_of sheet4 "X" ∈ preprocess_sbp_data sheet4) as Hin
    by (apply result_row_elem_of; vm_compute; left).
  split; [exact Hin|].
  destruct (C1_classification_by_thresholds sheet4 _ Hin) as (_ & _ & _ & Hx).
  destruct (Hx (Q2Qc (5 # 100))) as (_ & Hmed & _); [qc_eval|].
  apply Hmed; by vm_compute.
Defined.

Lemma thresholds_default (values : list Qc) :
  length values < 3 → thresholds values = (0%Qc, 0%Qc).
Proof. intros Hlen. unfold thresholds. rewrite decide_False; [done | lia]. Qed.

Lemma classify_roe_equal_thresholds p x :
  classify_roe p p (Some x) =
  if decide (x ≤ p)%Qc then "Low performance" else "High performance".
Proof. unfold classify_roe. by repeat case_decide. Qed.

(** C2, as the spec words it, fails on the sheet with two defined ROE
    values: the thresholds are (0, 0), the row of bank "X" has ROE 0.05
    and its label is "High performance", not "Medium performance". *)
Lemma C2_counterexample :
  length (roe_values (preprocess_sbp_data sheet2)) = 2 ∧
  thresholds (roe_values (preprocess_sbp_data sheet2)) = (0%Qc, 0%Qc) ∧
  row_of sheet2 "X" ∈ preprocess_sbp_data sheet2 ∧
  Out.ROE (row_of sheet2 "X") = Some (Q2Qc (5 # 100)) ∧
  Out.classification (row_of sheet2 "X") = "High performance" ∧
  Out.classification (row_of sheet2 "X") ≠ "Medium performance".
Proof.
  split; [by vm_compute|].
  split; [by apply thresholds_default; vm_compute; lia|].
  split; [apply result_row_elem_of; vm_compute; left|].
  split; [qc_eval|].
  assert (Out.classification (row_of sheet2 "X") = "High performance") as ->
    by (by vm_compute).
  done.
Qed.

(** C2, amended. When the result frame has exactly 2 non-null ROE
    values the thresholds are (0, 0), and a row whose ROE is 0.05 is
    labelled "High performance". *)
Theorem C2_two_values_high (df : list raw_record) (o : Out.row) :
  length (roe_values (preprocess_sbp_data df)) = 2 →
  o ∈ preprocess_sbp_data df →
  Out.ROE o = Some (Q2Qc (5 # 100)) →
  thresholds (roe_values (preprocess_sbp_data df)) = (0%Qc, 0%Qc) ∧
  Out.classification o = "High performance".
Proof.
  intros Hlen Ho Hroe.
  assert (thresholds (roe_values (preprocess_sbp_data df)) = (0%Qc, 0%Qc))
    as Hth by (apply thresholds_default; lia).
  split; [done|].
  rewrite (classification_preprocess df o Ho), Hth, Hroe.
  by vm_compute.
Qed.

Lemma C2_witness :
  length (roe_values (preprocess_sbp_data sheet2)) = 2 ∧
  row_of sheet2 "X" ∈ preprocess_sbp_data sheet2 ∧
  Out.ROE (row_of sheet2 "X") = Some (Q2Qc (5 # 100)) ∧
  thresholds (roe_values (preprocess_sbp_data sheet2)) = (0%Qc, 0%Qc) ∧
  Out.classification (row_of sheet2 "X") = "High performance".
Proof.
  assert (length (roe_values (preprocess_sbp_data sheet2)) = 2) as Hlen
    by (by vm_compute).
  assert (row_of sheet2 "X" ∈ preprocess_sbp_data sheet2) as Hin
    by (apply result_row_elem_of; vm_compute; left).
  assert (Out.ROE (row_of sheet2 "X") = Some (Q2Qc (5 # 100))) as Hroe
    by qc_eval.
  split; [exact Hlen|]. split; [exact Hin|]. split; [exact Hroe|].
  exact (C2_two_values_high sheet2 _ Hlen Hin Hroe).
Defined.

(** C10. When the two thresholds of a frame are equal, in particular
    when it has fewer than 3 non-null ROE values and both are 0, no row
    is labelled "Medium performance": a null ROE gives "Unknown", ROE at
    most the threshold gives "Low performance", ROE above it gives "High
    performance". *)
Theorem C10_equal_thresholds_no_medium (df : list raw_record) (o : Out.row) :
  let values := roe_values (preprocess_sbp_data df) in
  let p33 := (thresholds values).1 in
  let p66 := (thresholds values).2 in
  o ∈ preprocess_sbp_data df →
  length values < 3 ∨ p33 = p66 →
  (length values < 3 → p33 = 0%Qc ∧ p66 = 0%Qc) ∧
  Out.classification o ≠ "Medium performance" ∧
  (Out.ROE o = None → Out.classification o = "Unknown") ∧
  ∀ x, Out.ROE o = Some x →
    ((x ≤ p33)%Qc → Out.classification o = "Low performance") ∧
    ((p33 < x)%Qc → Out.classification o = "High performance").
Proof.
  intros values p33 p66 Ho Heq.
  assert (length values < 3 → p33 = 0%Qc ∧ p66 = 0%Qc) as Hdef.
  { intros Hlen. unfold p33, p66. by rewrite thresholds_default. }
  assert (p33 = p66) as Hpp by (destruct Heq as [Hlen|]; [|done];
    destruct (Hdef Hlen); congruence).
  split; [done|].
  rewrite (classification_preprocess df o Ho). fold values p33 p66.
  rewrite <- Hpp. destruct (Out.ROE o) as [x|].
  - rewrite classify_roe_equal_thresholds.
    split; [by case_decide|]. split; [done|].
    intros ? [= <-]. split; intros Hx.
    + by rewrite decide_True.
    + rewrite decide_False; [done | by apply Qclt_not_le].
  - split; [done|]. split; [done|]. by intros x.
Qed.

Lemma C10_witness :
  row_of sheet2 "X" ∈ preprocess_sbp_data sheet2 ∧
  length (roe_values (preprocess_sbp_data sheet2)) < 3 ∧
  Out.classification (row_of sheet2 "X") ≠ "Medium performance".
Proof.
  assert (row_of sheet2 "X" ∈ preprocess_sbp_data sheet2) as Hin
    by (apply result_row_elem_of; vm_compute; left).
  assert (length (roe_values (preprocess_sbp_data sheet2)) < 3) as Hlen
    by (vm_compute; lia).
  split; [exact Hin|]. split; [exact Hlen|].
  exact (proj1 (proj2
    (C10_equal_thresholds_no_medium sheet2 _ Hin (or_introl Hlen)))).
Defined.

Lemma label_le_refl c : c ∈ labels → c ≠ "Unknown" → label_le c c.
Proof.
  unfold labels. rewrite !elem_of_cons, elem_of_nil.
  intros [->|[->|[->|[->|[]]]]] Hne; [..|done];
    eexists _, _; (split; [by vm_compute|]); (split; [by vm_compute|]); done.
Qed.

Lemma classify_roe_mono p33 p66 x y :
  (x < y)%Qc →
  label_le (classify_roe p33 p66 (Some x)) (classify_roe p33 p66 (Some y)).
Proof.
  intros Hxy. unfold classify_roe.
  destruct (decide (y ≤ p33)%Qc) as [Hy1|Hy1].
  - rewrite decide_True
      by (eapply Qcle_trans; [by apply Qclt_le_weak | done]).
    exists 0, 0. by vm_compute.
  - destruct (decide (y ≤ p66)%Qc) as [Hy2|Hy2].
    + destruct (decide (x ≤ p33)%Qc).
      * exists 0, 1. split; [done|]. split; [done|]. lia.
      * rewrite decide_True
          by (eapply Qcle_trans; [by apply Qclt_le_weak | done]).
        exists 1, 1. by vm_compute.
    + repeat case_decide.
      * exists 0, 2. split; [done|]. split; [done|]. lia.
      * exists 1, 2. split; [done|]. split; [done|]. lia.
      * exists 2, 2. by vm_compute.
Qed.

(** C7. For two rows of one result frame with non-null ROE, a strictly
    smaller ROE never gets a higher label in the order Low performance <
    Medium performance < High performance. *)
Theorem C7_classification_monotone (df : list raw_record) (a b : Out.row)
    (x y : Qc) :
  a ∈ preprocess_sbp_data df → b ∈ preprocess_sbp_data df →
  Out.ROE a = Some x → Out.ROE b = Some y → (x < y)%Qc →
  label_le (Out.classification a) (Out.classification b).
Proof.
  intros Ha Hb Hx Hy Hxy.
  rewrite (classification_preprocess df a Ha),
    (classification_preprocess df b Hb), Hx, Hy.
  by apply classify_roe_mono.
Qed.

Lemma C7_witness :
  row_of sheet4 "Y" ∈ preprocess_sbp_data sheet4 ∧
  row_of sheet4 "X" ∈ preprocess_sbp_data sheet4 ∧
  Out.ROE (row_of sheet4 "Y") = Some (Q2Qc (-8 # 100)) ∧
  Out.ROE (row_of sheet4 "X") = Some (Q2Qc (5 # 100)) ∧
  (Q2Qc (-8 # 100) < Q2Qc (5 # 100))%Qc ∧
  label_le (Out.classification (row_of sheet4 "Y"))
           (Out.classification (row_of sheet4 "X")).
Proof.
  assert (row_of sheet4 "Y" ∈ preprocess_sbp_data sheet4) as Ha
    by (apply result_row_elem_of; vm_compute; set_solver).
  assert (row_of sheet4 "X" ∈ preprocess_sbp_data sheet4) as Hb
    by (apply result_row_elem_of; vm_compute; left).
  assert (Out.ROE (row_of sheet4 "Y") = Some (Q2Qc (-8 # 100))) as Hx
    by qc_eval.
  assert (Out.ROE (row_of sheet4 "X") = Some (Q2Qc (5 # 100))) as Hy
    by qc_eval.
  assert (Q2Qc (-8 # 100) < Q2Qc (5 # 100))%Qc as Hxy by (by vm_compute).
  repeat (split; [assumption|]).
  exact (C7_classification_monotone sheet4 _ _ _ _ Ha Hb Hx Hy Hxy).
Defined.

(** ** Primary ratios *)

Lemma get_col_lookup (t : wide_table) k cells category indicator :
  t !! k = Some cells →
  get_col t category indicator !! k = Some (Rowwise.item cells category indicator).
Proof. intros Hk. by rewrite get_col_rowwise, lookup_fmap, Hk. Qed.

Lemma get_col_lookup_total (t : wide_table) k cells category indicator :
  t !! k = Some cells →
  get_col t category indicator !!! k = Rowwise.item cells category indicator.
Proof.
  intros Hk. by rewrite lookup_total_alt, (get_col_lookup _ _ _ _ _ Hk).
Qed.

Lemma item_pivot_table df k cells c :
  pivot_table df !! k = Some cells →
  Rowwise.item cells c.1 c.2 = sum_values (group df k c).
Proof.
  intros Hk. rewrite <- default_group_sum, <- cell_at_pivot_table.
  unfold cell_at, Rowwise.item. rewrite Hk. by destruct c.
Qed.








(** C9. In every row of the result frame adjusted_ROE is null when ROE
    is null, as well as when its own denominator (domestic credit
    portfolio minus domestic provisions) is 0. *)
Theorem C9_adjusted_roe_null (df : list raw_record) (o : Out.row) :
  o ∈ preprocess_sbp_data df →
  let get category indicator :=
    get_col (pivot_table df) category indicator !!! Out.key o in
  (Out.ROE o = None → Out.adjusted_ROE o = None) ∧
  ((get "Cartera Crediticia" "Locales"
    - get "Cartera Crediticia" "Menos Provisiones Locales")%Qc = 0%Qc →
   Out.adjusted_ROE o = None).
Proof.
  intros (k & cells & Hk & ->)%elem_of_preprocess get. unfold get.
  replace (Out.key (Rowwise.row cells _ _ k)) with k by (by destruct k as [[??]?]).
  rewrite !(get_col_lookup_total _ _ _ _ _ Hk). simpl.
  unfold Rowwise.adjusted_ROE. split.
  - intros ->. by case_decide.
  - intros Hden. by rewrite decide_False by (by intros []).
Qed.

Lemma C9_witness :
  row_of sheet4 "Z" ∈ preprocess_sbp_data sheet4 ∧
  Out.ROE (row_of sheet4 "Z") = None ∧
  Out.adjusted_ROE (row_of sheet4 "Z") = None.
Proof.
  assert (row_of sheet4 "Z" ∈ preprocess_sbp_data sheet4) as Hin
    by (apply result_row_elem_of; vm_compute; set_solver).
  assert (Out.ROE (row_of sheet4 "Z") = None) as Hroe by (by vm_compute).
  split; [exact Hin|]. split; [exact Hroe|].
  exact (proj1 (C9_adjusted_roe_null sheet4 _ Hin) Hroe).
Defined.

(** ** The pivot, the safe accessor and equity *)

(** C6. For a period key of the input, a cell of the pivoted frame holds
    the sum of the values of all the records of that key, category and
    indicator (every such record adds its value, a NaN value adds
    nothing) and is absent when there is no such record; [get_col]
    reads that sum, and 0 when the group is empty. *)
Theorem C6_pivot_sums_and_safe_get (df : list raw_record) (k : period_key)
    (category indicator : string) :
  k ∈ key_of <$> df →
  cell_at (pivot_table df) k (category, indicator) =
    group_sum df k (category, indicator) ∧
  get_col (pivot_table df) category indicator !! k =
    Some (sum_values (group df k (category, indicator))) ∧
  (group df k (category, indicator) = [] →
   get_col (pivot_table df) category indicator !! k = Some 0%Qc).
Proof.
  intros [cells Hk]%pivot_table_key.
  assert (get_col (pivot_table df) category indicator !! k =
          Some (sum_values (group df k (category, indicator)))) as Hget.
  { rewrite (get_col_lookup _ _ _ _ _ Hk).
    by rewrite <- (item_pivot_table df k cells (category, indicator) Hk). }
  split; [apply cell_at_pivot_table|]. split; [done|].
  intros Hnil. by rewrite Hget, Hnil.
Qed.

Lemma C6_witness :
  ("X", 2023%Z, 1%Z) ∈ key_of <$> sheet4 ∧
  get_col (pivot_table sheet4) "Patrimonio" "Capital" !! ("X", 2023%Z, 1%Z) =
    Some (Qc_of_Z 95) ∧
  get_col (pivot_table sheet4) "Depositos" "A Plazo" !! ("X", 2023%Z, 1%Z) =
    Some 0%Qc.
Proof.
  assert (("X", 2023%Z, 1%Z) ∈ key_of <$> sheet4) as Hin
    by (vm_compute; left).
  split; [exact Hin|].
  destruct (C6_pivot_sums_and_safe_get sheet4 _ "Patrimonio" "Capital" Hin)
    as (_ & Hcap & _).
  destruct (C6_pivot_sums_and_safe_get sheet4 _ "Depositos" "A Plazo" Hin)
    as (_ & _ & Hdep).
  split.
  - rewrite Hcap. qc_eval.
  - apply Hdep. by vm_compute.
Defined.






(** * Further properties of the engine *)

(** ** The order of the input records *)







(** ** Secondary ratios *)


Lemma key_row cells p33 p66 k : Out.key (Rowwise.row cells p33 p66 k) = k.
Proof. by destruct k as [[b y] m]. Qed.







Section RowOfSheet.
Variables (df : list raw_record) (k : period_key) (cells : wide_row).
Hypothesis Hk : pivot_table df !! k = Some cells.

Lemma item_group category indicator :
  Rowwise.item cells category indicator =
  sum_values (group df k (category, indicator)).
Proof. apply (item_pivot_table df k cells (category, indicator) Hk). Qed.
End RowOfSheet.



(** X4. adjusted_ROE is ROE times Locales / (Locales - Menos
    Provisiones Locales) of category Cartera Crediticia, null when that
    denominator is 0.  For a key without a record of the item "Menos
    Provisiones Locales" (or whose records of it sum to 0) and with a
    non-zero Locales, adjusted_ROE is ROE itself. *)
Theorem X4_adjusted_roe_formula (df : list raw_record) (o : Out.row) :
  o ∈ preprocess_sbp_data df →
  let locales :=
    sum_values (group df (Out.key o) ("Cartera Crediticia", "Locales")) in
  let provisions :=
    sum_values (group df (Out.key o)
                  ("Cartera Crediticia", "Menos Provisiones Locales")) in
  Out.adjusted_ROE o =
    nan_mul (Out.ROE o) (quotient locales (locales - provisions)%Qc) ∧
  (provisions = 0%Qc → locales ≠ 0%Qc → Out.adjusted_ROE o = Out.ROE o).
Proof.
  intros (k & cells & Hk & ->)%elem_of_preprocess locales provisions.
  unfold locales, provisions. clear locales provisions. rewrite key_row.
  cbn [Out.adjusted_ROE Out.ROE Rowwise.row].
  rewrite <- !(item_group df k cells Hk).
  assert (Rowwise.adjusted_ROE cells =
          nan_mul (Rowwise.roe cells)
            (quotient (Rowwise.item cells "Cartera Crediticia" "Locales")
               (Rowwise.item cells "Cartera Crediticia" "Locales"
                - Rowwise.item cells "Cartera Crediticia"
                    "Menos Provisiones Locales")%Qc)) as Hadj.
  { unfold Rowwise.adjusted_ROE, Rowwise.denom_adjusted,
      Rowwise.credit_locales, quotient, nan_div.
    cbn [mbind option_bind].
    destruct (decide (_ - _ = 0)%Qc) as [Hz|Hz].
    - rewrite decide_False by (by intros Hne; apply Hne).
      unfold nan_mul. by destruct (Rowwise.roe cells).
    - by rewrite decide_True by done. }
  split; [done|]. intros Hp Hl. rewrite Hadj, Hp. unfold quotient.
  replace (Rowwise.item cells "Cartera Crediticia" "Locales" - 0)%Qc
    with (Rowwise.item cells "Cartera Crediticia" "Locales") by ring.
  rewrite decide_False by done. unfold nan_mul.
  destruct (Rowwise.roe cells) as [x|]; cbn [mbind option_bind]; [|done].
  f_equal. by field.
Qed.

Lemma X4_witness :
  row_of sheet4 "X" ∈ preprocess_sbp_data sheet4 ∧
  Out.adjusted_ROE (row_of sheet4 "X") = Out.ROE (row_of sheet4 "X").
Proof.
  assert (row_of sheet4 "X" ∈ preprocess_sbp_data sheet4) as Hin
    by (apply result_row_elem_of; vm_compute; left).
  split; [exact Hin|].
  apply (proj2 (X4_adjusted_roe_formula sheet4 _ Hin)).
  - qc_eval.
  - by vm_compute.
Defined.



(** ** Sums over a category *)






(** ** The thresholds within the sample *)

Lemma nth_merge_sort_elem_of (l : list Qc) (i : nat) :
  i < length l → nth i (merge_sort Qcle l) 0%Qc ∈ l.
Proof.
  intros Hi. rewrite <- (merge_sort_Permutation Qcle l) at 2.
  apply list_elem_of_In, nth_In.
  by rewrite (Permutation_length (merge_sort_Permutation Qcle l)).
Qed.

Ltac to_Q :=
  unfold Qcle, Qclt in *;
  repeat (rewrite this_plus in * || rewrite this_minus in *
          || rewrite this_mult in * );
  change (this (Q2Qc 0)) with 0%Q in *;
  change (this (Q2Qc 1)) with 1%Q in *.

Lemma quantile_range (l : list Qc) (q : Qc) :
  l ≠ [] → (0 ≤ q)%Qc → (q ≤ 1)%Qc →
  ∃ a b, a ∈ l ∧ b ∈ l ∧ (a ≤ quantile l q)%Qc ∧ (quantile l q ≤ b)%Qc.
Proof.
  intros Hl H0 H1. rewrite quantile_interp.
  assert (length (merge_sort Qcle l) = length l) as Hlen
    by apply Permutation_length, merge_sort_Permutation.
  assert (0 < length l) as Hpos by (destruct l; [done | simpl; lia]).
  assert (0 ≤ Qc_of_Z (Z.of_nat (length l) - 1))%Qc as Hn.
  { change (inject_Z 0 <= inject_Z (Z.of_nat (length l) - 1))%Q.
    rewrite <- Zle_Qle. lia. }
  set (pos := (q * Qc_of_Z (Z.of_nat (length l) - 1))%Qc).
  assert (0 ≤ pos)%Qc as Hp0 by (unfold pos; to_Q; nra).
  assert (pos ≤ Qc_of_Z (Z.of_nat (length (merge_sort Qcle l)) - 1))%Qc
    as Hp1 by (rewrite Hlen; unfold pos; to_Q; nra).
  destruct (floor_range _ pos Hp0 Hp1) as [Hlo Hhi]. rewrite Hlen in Hhi.
  destruct (interp_bounds (merge_sort Qcle l) pos) as [Hdown Hup];
    [apply StronglySorted_merge_sort; apply _ | done | done |].
  rewrite Hlen in Hup.
  eexists _, _. split; [|split; [|split; [exact Hdown | exact Hup]]];
    apply nth_merge_sort_elem_of; lia.
Qed.

(** X7. When the result frame has at least 3 non-null ROE values the
    two thresholds are ordered and lie within the range of these
    values: any lower bound of the values is at most q33, q33 is at
    most q66, and q66 is at most any upper bound of the values. *)
Theorem X7_thresholds_within_sample (df : list raw_record) (lo hi : Qc) :
  let values := roe_values (preprocess_sbp_data df) in
  2 < length values →
  (∀ x, x ∈ values → (lo ≤ x)%Qc) →
  (∀ x, x ∈ values → (x ≤ hi)%Qc) →
  (lo ≤ (thresholds values).1)%Qc ∧
  ((thresholds values).1 ≤ (thresholds values).2)%Qc ∧
  ((thresholds values).2 ≤ hi)%Qc.
Proof.
  intros values Hlen Hlo Hhi.
  assert (values ≠ []) as Hne by (intros E; rewrite E in Hlen; simpl in Hlen; lia).
  split; [|split; [apply thresholds_ordered|]].
  - unfold thresholds. rewrite decide_True by done. cbn [fst].
    destruct (quantile_range values q033 Hne) as (a & _ & Ha & _ & Hqa & _);
      [by compute.. |].
    eapply Qcle_trans; [by apply Hlo | done].
  - unfold thresholds. rewrite decide_True by done. cbn [snd].
    destruct (quantile_range values q066 Hne) as (_ & b & _ & Hb & _ & Hqb);
      [by compute.. |].
    eapply Qcle_trans; [done | by apply Hhi].
Qed.

Lemma X7_witness :
  2 < length (roe_values (preprocess_sbp_data sheet4)) ∧
  (Q2Qc (-8 # 100)
   ≤ (thresholds (roe_values (preprocess_sbp_data sheet4))).1)%Qc ∧
  ((thresholds (roe_values (preprocess_sbp_data sheet4))).2
   ≤ Q2Qc (20 # 100))%Qc.
Proof.
  assert (2 < length (roe_values (preprocess_sbp_data sheet4))) as Hlen
    by (vm_compute; lia).
  split; [exact Hlen|].
  assert (Forall (λ x, Q2Qc (-8 # 100) ≤ x ∧ x ≤ Q2Qc (20 # 100))%Qc
            (roe_values (preprocess_sbp_data sheet4))) as Hall
    by (vm_compute; repeat constructor; by compute).
  rewrite Forall_forall in Hall.
  destruct (X7_thresholds_within_sample sheet4 (Q2Qc (-8 # 100))
              (Q2Qc (20 # 100)) Hlen) as (H1 & _ & H2).
  - intros x Hx. exact (proj1 (Hall x Hx)).
  - intros x Hx. exact (proj2 (Hall x Hx)).
  - split; [exact H1 | exact H2].
Defined.

(** X6. When the result frame has at least 3 non-null ROE values, a
    row whose ROE is the smallest of them is labelled "Low performance",
    and there is such a row: the class "Low performance" is never
    empty. *)
Theorem X6_smallest_roe_is_low (df : list raw_record) :
  let values := roe_values (preprocess_sbp_data df) in
  2 < length values →
  (∀ o x, o ∈ preprocess_sbp_data df → Out.ROE o = Some x →
          (∀ y, y ∈ values → (x ≤ y)%Qc) →
          Out.classification o = "Low performance") ∧
  ∃ o, o ∈ preprocess_sbp_data df ∧
       Out.classification o = "Low performance".
Proof.
  intros values Hlen.
  assert (values ≠ []) as Hne by (intros E; rewrite E in Hlen; simpl in Hlen; lia).
  assert (∃ a, a ∈ values ∧ (a ≤ (thresholds values).1)%Qc) as (a & Ha & Hqa).
  { unfold thresholds. rewrite decide_True by done. cbn [fst].
    destruct (quantile_range values q033 Hne) as (a & _ & Ha & _ & Hqa & _);
      [by compute.. |]. eauto. }
  assert (∀ o x, o ∈ preprocess_sbp_data df → Out.ROE o = Some x →
            (∀ y, y ∈ values → (x ≤ y)%Qc) →
            Out.classification o = "Low performance") as Hlow.
  { intros o x Ho Hx Hmin.
    rewrite (classification_preprocess df o Ho), Hx. fold values.
    apply classify_roe_low. eapply Qcle_trans; [by apply Hmin | done]. }
  split; [exact Hlow|].
  assert (∃ m, m ∈ values ∧ ∀ y, y ∈ values → (m ≤ y)%Qc) as (m & Hm & Hmin).
  { exists (nth 0 (merge_sort Qcle values) 0%Qc). split.
    - apply nth_merge_sort_elem_of. lia.
    - intros y Hy. rewrite <- (merge_sort_Permutation Qcle values) in Hy.
      apply list_elem_of_In, (In_nth _ _ 0%Qc) in Hy as (i & Hi & <-).
      apply sorted_nth; [apply StronglySorted_merge_sort; apply _ | lia | done]. }
  unfold values, roe_values in Hm.
  apply list_elem_of_omap in Hm as (o & Ho & Hroe).
  exists o. split; [done|]. by apply (Hlow o m).
Qed.

Lemma X6_witness :
  2 < length (roe_values (preprocess_sbp_data sheet4)) ∧
  ∃ o, o ∈ preprocess_sbp_data sheet4 ∧
       Out.classification o = "Low performance".
Proof.
  assert (2 < length (roe_values (preprocess_sbp_data sheet4))) as Hlen
    by (vm_compute; lia).
  split; [exact Hlen|].
  exact (proj2 (X6_smallest_roe_is_low sheet4 Hlen)).
Defined.

(** * The trainer's feature matrix *)

Section Fill.
Implicit Types (col : list (option Qc)).

Lemma omap_id_nil col : omap id col = [] ↔ Forall (λ x, x = None) col.
Proof.
  induction col as [|[v|] col IH]; csimpl.
  - split; [constructor | done].
  - split; [done | by intros [? _]%Forall_cons].
  - rewrite IH. split; [by constructor | by intros [_ ?]%Forall_cons].
Qed.

Lemma median_None col : Train.median col = None ↔ Forall (λ x, x = None) col.
Proof.
  rewrite <- omap_id_nil. unfold Train.median. cbv zeta.
  destruct (omap id col) as [|v values] eqn:E; [done|].
  rewrite decide_False by done. by destruct (Nat.even _).
Qed.

Lemma fillna_length col value : length (Train.fillna col value) = length col.
Proof. unfold Train.fillna. by rewrite length_fmap. Qed.

Lemma fillna_keeps col value i v :
  col !! i = Some (Some v) → Train.fillna col value !! i = Some (Some v).
Proof. intros Hi. unfold Train.fillna. by rewrite list_lookup_fmap, Hi. Qed.

Lemma fillna_median_null col :
  None ∈ Train.fillna col (Train.median col) ↔
  col ≠ [] ∧ Forall (λ x, x = None) col.
Proof.
  unfold Train.fillna. rewrite list_elem_of_fmap. split.
  - intros ([v|] & Hv & Hin); [done|]. symmetry in Hv.
    apply median_None in Hv. split; [|done]. intros ->.
    by apply elem_of_nil in Hin.
  - intros [Hne Hall]. destruct col as [|x col]; [done|].
    apply median_None in Hall as Hm. rewrite Hm.
    apply Forall_cons in Hall as [-> _]. exists None. split; [done | by left].
Qed.

Lemma mid_bounds (a b : Qc) :
  (a ≤ b)%Qc → (a ≤ (a + b) / Q2Qc 2)%Qc ∧ ((a + b) / Q2Qc 2 ≤ b)%Qc.
Proof.
  intros Hab. unfold Qcdiv. to_Q.
  change (this (/ Q2Qc 2)%Qc) with (1 # 2)%Q. split; lra.
Qed.

Lemma median_bounds col m :
  Train.median col = Some m →
  ∃ a b, Some a ∈ col ∧ Some b ∈ col ∧ (a ≤ m)%Qc ∧ (m ≤ b)%Qc.
Proof.
  unfold Train.median. cbv zeta.
  set (values := omap id col).
  assert (∀ i, i < length values →
               Some (nth i (merge_sort Qcle values) 0%Qc) ∈ col) as Hin.
  { intros i Hi. pose proof (nth_merge_sort_elem_of values i Hi) as Hx.
    unfold values in Hx. apply list_elem_of_omap in Hx as (y & Hy & Hid).
    simpl in Hid. by subst y. }
  case_decide as Hn; [done|].
  destruct (Nat.even (length values)) eqn:Heven;
    intros Heq%(inj Some); subst m.
  - apply Nat.even_spec in Heven as [h Hh].
    assert (length values / 2 = h) as Hdiv
      by (rewrite Hh, (Nat.mul_comm 2 h); apply Nat.div_mul; lia).
    rewrite Hdiv.
    assert (nth (h - 1) (merge_sort Qcle values) 0
            ≤ nth h (merge_sort Qcle values) 0)%Qc as Hle.
    { apply sorted_nth; [apply StronglySorted_merge_sort; apply _ | lia |].
      rewrite (Permutation_length (merge_sort_Permutation Qcle values)). lia. }
    destruct (mid_bounds _ _ Hle) as [H1 H2].
    eexists _, _. split; [apply (Hin (h - 1)); lia|].
    split; [apply (Hin h); lia|]. by split.
  - assert (length values / 2 < length values)
      by (apply Nat.div_lt; lia).
    eexists _, _. split; [by apply Hin|]. split; [by apply Hin|].
    split; apply Qcle_refl.
Qed.
End Fill.

(** X11. The fill of line 22 keeps the shape of the feature matrix and
    every value that was not null; a filled column still holds a null
    exactly when the column is not empty and was null in every row (its
    median is then NaN and fills nothing). *)
Theorem X11_fillna_median (data : list Out.row) (j : nat)
    (col : list (option Qc)) :
  Train.X data !! j = Some col →
  ∃ filled, Train.X_filled data !! j = Some filled ∧
    length filled = length data ∧
    (∀ i v, col !! i = Some (Some v) → filled !! i = Some (Some v)) ∧
    (None ∈ filled ↔ data ≠ [] ∧ Forall (λ x, x = None) col).
Proof.
  intros Hj. exists (Train.fillna col (Train.median col)).
  assert (length col = length data) as Hlen.
  { unfold Train.X in Hj.
    do 5 (destruct j as [|j]; [injection Hj as <-; apply length_fmap|]).
    done. }
  split; [unfold Train.X_filled; by rewrite list_lookup_fmap, Hj|].
  split; [by rewrite fillna_length|].
  split; [intros i v; apply fillna_keeps|].
  rewrite fillna_median_null.
  assert (col ≠ [] ↔ data ≠ []) as ->; [|done].
  destruct col, data; simpl in Hlen; by try lia.
Qed.

Lemma X11_witness :
  Train.X (preprocess_sbp_data sheet2) !! 0
    = Some (Out.ROA <$> preprocess_sbp_data sheet2) ∧
  ∃ filled, Train.X_filled (preprocess_sbp_data sheet2) !! 0 = Some filled ∧
            length filled = 3.
Proof.
  split; [reflexivity|].
  destruct (X11_fillna_median (preprocess_sbp_data sheet2) 0 _ eq_refl)
    as (filled & Hf & Hlen & _).
  exists filled. split; [exact Hf|]. rewrite Hlen. by vm_compute.
Defined.

(** X12. The value that fills a feature column, its median, lies
    between two values of that column, so the fill never leaves the
    range of the values observed for the feature. *)
Theorem X12_fill_value_in_range (data : list Out.row) (j : nat)
    (col : list (option Qc)) (m : Qc) :
  Train.X data !! j = Some col → Train.median col = Some m →
  (∃ a b, Some a ∈ col ∧ Some b ∈ col ∧ (a ≤ m)%Qc ∧ (m ≤ b)%Qc) ∧
  ∀ filled i v, Train.X_filled data !! j = Some filled →
    filled !! i = Some (Some v) → col !! i = Some (Some v) ∨ v = m.
Proof.
  intros Hj Hm. split; [by apply median_bounds|].
  intros filled i v Hf Hi. unfold Train.X_filled in Hf.
  rewrite list_lookup_fmap, Hj in Hf. injection Hf as <-.
  unfold Train.fillna in Hi. rewrite list_lookup_fmap, Hm in Hi.
  destruct (col !! i) as [[x|]|]; simpl in Hi; [left | right | done];
    congruence.
Qed.

Lemma X12_witness :
  Train.X (preprocess_sbp_data sheet2) !! 1
    = Some (Out.Leverage <$> preprocess_sbp_data sheet2) ∧
  Train.median (Out.Leverage <$> preprocess_sbp_data sheet2)
    = Some (Q2Qc (3 # 2)) ∧
  ∃ a b, Some a ∈ Out.Leverage <$> preprocess_sbp_data sheet2 ∧
         Some b ∈ Out.Leverage <$> preprocess_sbp_data sheet2 ∧
         (a ≤ Q2Qc (3 # 2))%Qc ∧ (Q2Qc (3 # 2) ≤ b)%Qc.
Proof.
  assert (Train.median (Out.Leverage <$> preprocess_sbp_data sheet2)
          = Some (Q2Qc (3 # 2))) as Hm by qc_eval.
  split; [reflexivity|]. split; [exact Hm|].
  exact (proj1 (X12_fill_value_in_range _ 1 _ _ eq_refl Hm)).
Defined.

(** * The dashboard *)

Section Page.
Import Dashboard.

Lemma menu_options_cases language :
  menu_options language = menu_options "English" ∨
  menu_options language = menu_options "Español".
Proof.
  unfold menu_options.
  destruct (decide (language = "English")) as [->|Hne]; [by left | right].
  by vm_compute.
Qed.

Lemma show_menu_cases language (i : nat) (empty : bool) :
  i < 7 →
  show (menu_options language) (option_at (menu_options language) i) empty
    ≠ prompt ∧
  (show (menu_options language) (option_at (menu_options language) i) empty
     = no_data ↔ empty = true ∧ i < 6).
Proof.
  intros Hi.
  destruct (menu_options_cases language) as [-> | ->];
    do 7 (destruct i as [|i];
          [destruct empty; vm_compute;
           (split;
            [discriminate
            |split;
             [intros H; first [discriminate H | split; [reflexivity | lia]]
             |intros [H1 H2]; first [reflexivity | discriminate H1 | lia]]])
          |]);
    lia.
Qed.

Lemma filter_all {A : Type} (P : A → Prop) `{∀ x, Decision (P x)}
    (l : list A) :
  (∀ x, x ∈ l → P x) → filter P l = l.
Proof.
  induction l as [|x l IH]; intros Hall; [done|].
  rewrite filter_cons, decide_True by (apply Hall; by left).
  f_equal. apply IH. intros y Hy. apply Hall. by right.
Qed.

Lemma filter_none {A : Type} (P : A → Prop) `{∀ x, Decision (P x)}
    (l : list A) :
  (∀ x, x ∈ l → ¬ P x) → filter P l = [].
Proof.
  induction l as [|x l IH]; intros Hall; [done|].
  rewrite filter_cons, decide_False by (apply Hall; by left).
  apply IH. intros y Hy. apply Hall. by right.
Qed.

Lemma elem_of_sorted_unique_strings (l : list string) x :
  x ∈ sorted_unique_strings l ↔ x ∈ l.
Proof.
  unfold sorted_unique_strings.
  by rewrite merge_sort_Permutation, elem_of_remove_dups.
Qed.

Lemma elem_of_sorted_unique_numbers (l : list Z) x :
  x ∈ sorted_unique_numbers l ↔ x ∈ l.
Proof.
  unfold sorted_unique_numbers.
  by rewrite merge_sort_Permutation, elem_of_remove_dups.
Qed.

Lemma filtered_df_default data_df :
  filtered_df data_df (default_selection data_df) = data_df.
Proof.
  unfold filtered_df. apply filter_all. intros o Ho.
  cbn [default_selection selected_banks selected_years selected_months
       selected_classes].
  rewrite !elem_of_sorted_unique_strings, !elem_of_sorted_unique_numbers.
  repeat split; by apply list_elem_of_fmap_2.
Qed.
End Page.

(** X13. Every entry of the menu, in either language, leads to its
    chart or table and never to the closing prompt "Select a
    visualization option from the sidebar."; the entry at a given
    position shows the same view in both languages, the title apart;
    and on an empty filtered frame the six chart entries show the
    no-data message while the table entry still shows the table. *)
Theorem X13_menu_dispatch (language language' : string) (i : nat)
    (empty : bool) :
  i < 7 →
  let options := Dashboard.menu_options language in
  let options' := Dashboard.menu_options language' in
  Dashboard.show options (Dashboard.option_at options i) empty
    ≠ Dashboard.prompt ∧
  Dashboard.untitled
    (Dashboard.show options (Dashboard.option_at options i) empty) =
  Dashboard.untitled
    (Dashboard.show options' (Dashboard.option_at options' i) empty) ∧
  (Dashboard.show options (Dashboard.option_at options i) empty
     = Dashboard.no_data ↔ empty = true ∧ i < 6).
Proof.
  intros Hi options options'.
  destruct (show_menu_cases language i empty Hi) as [Hp Hn].
  split; [exact Hp|]. split; [|exact Hn].
  unfold options, options'.
  destruct (menu_options_cases language) as [-> | ->],
    (menu_options_cases language') as [-> | ->];
    do 7 (destruct i as [|i]; [by destruct empty; vm_compute|]); lia.
Qed.

Lemma X13_witness :
  6 < 7 ∧
  Dashboard.show (Dashboard.menu_options "Español")
    (Dashboard.option_at (Dashboard.menu_options "Español") 6) true
    ≠ Dashboard.no_data.
Proof.
  split; [lia|].
  intros Hn.
  apply (proj2 (proj2 (X13_menu_dispatch "Español" "English" 6 true
                         ltac:(lia)))) in Hn.
  destruct Hn as [_ Hn]. lia.
Defined.

(** X14. With the selections left at their defaults (every bank, year,
    month and label of the frame) the filter keeps the whole frame, so
    for a frame that is not empty no menu entry shows the no-data
    message. *)
Theorem X14_default_filter_keeps_all (data_df : list Out.row) :
  Dashboard.filtered_df data_df (Dashboard.default_selection data_df)
    = data_df ∧
  (data_df ≠ [] →
   ∀ language i, i < 7 →
     Dashboard.page data_df language (Dashboard.default_selection data_df)
       (Dashboard.option_at (Dashboard.menu_options language) i)
     ≠ Dashboard.no_data).
Proof.
  split; [apply filtered_df_default|].
  intros Hne language i Hi. unfold Dashboard.page.
  rewrite filtered_df_default, bool_decide_eq_false_2 by done.
  intros Hn. apply (show_menu_cases language i false Hi) in Hn as [? _].
  done.
Qed.

(** X15. When one of the four selections is empty the filtered frame
    is empty, and every chart entry of the menu shows the no-data
    message. *)
Theorem X15_empty_selection (data_df : list Out.row)
    (sel : Dashboard.selection) :
  Dashboard.selected_banks sel = [] ∨ Dashboard.selected_years sel = [] ∨
  Dashboard.selected_months sel = [] ∨ Dashboard.selected_classes sel = [] →
  Dashboard.filtered_df data_df sel = [] ∧
  ∀ language i, i < 6 →
    Dashboard.page data_df language sel
      (Dashboard.option_at (Dashboard.menu_options language) i)
    = Dashboard.no_data.
Proof.
  intros Hsel.
  assert (Dashboard.filtered_df data_df sel = []) as Hempty.
  { unfold Dashboard.filtered_df. apply filter_none.
    intros o _ (Hb & Hy & Hm & Hc).
    destruct Hsel as [E|[E|[E|E]]]; rewrite E in *;
      by eapply elem_of_nil. }
  split; [exact Hempty|].
  intros language i Hi. unfold Dashboard.page.
  rewrite Hempty, bool_decide_eq_true_2 by done.
  apply show_menu_cases; [lia | split; [done | lia]].
Qed.

Lemma X15_witness :
  Dashboard.selected_banks (Dashboard.Selection [] [2023%Z] [1%Z] ["Unknown"])
    = [] ∧
  Dashboard.filtered_df (preprocess_sbp_data sheet2)
    (Dashboard.Selection [] [2023%Z] [1%Z] ["Unknown"]) = [].
Proof.
  split; [reflexivity|].
  exact (proj1 (X15_empty_selection (preprocess_sbp_data sheet2)
                  (Dashboard.Selection [] [2023%Z] [1%Z] ["Unknown"])
                  (or_introl eq_refl))).
Defined.

(** * Who is labelled "Unknown", and a change of unit *)



Section Scale.
Variable c : Qc.
Hypothesis Hc : c ≠ 0%Qc.
















End Scale.


